(** * note-board: the expiring value store of [main.go]

    A shallow embedding of [ValueStore] (the clipboard store behind the HTTP
    handler) and its three operations [Set], [Get] and the periodic sweep of
    [startCleanupRoutine].

    - The Go map [map[string]storedValue] is a [gmap string storedValue].
    - [time.Time] values produced by [time.Now()] are instants on the
      monotonic clock, counted in nanoseconds: a [Z].  Each operation that
      reads the clock takes the reading as its first argument [now].
    - [time.Duration] is a signed 64-bit count of nanoseconds; [Time.Sub]
      saturates at its two ends as the Go library documents.
    - The mutex makes every critical section atomic.  [Get] has two of them
      (the lookup under [RLock], the delete under [Lock]); both are modelled,
      and the sequential [Get] is their composition.
    - The handler registered by [main] is a function from a request (method
      and query values) and the store to the calls it makes on the response
      writer and the store it leaves. *)

From Stdlib Require Import ZArith Lia.
From stdpp Require Import gmap strings fin_maps.

Local Open Scope Z_scope.

(** ** The [time] package, as far as the store uses it *)

Module Time.

Definition minDuration : Z := - 2 ^ 63.
Definition maxDuration : Z := 2 ^ 63 - 1.

(** A value that fits [int64]: a [Duration], or a monotonic clock reading. *)
Definition is_int64 (d : Z) : Prop := minDuration <= d <= maxDuration.

(** [t.Sub(u)]: the duration [t - u], or the maximum (minimum) duration
    when the difference does not fit. *)
Definition Sub (t u : Z) : Z :=
  Z.max minDuration (Z.min maxDuration (t - u)).

(** [time.Since(t)] is [time.Now().Sub(t)]. *)
Definition Since (now t : Z) : Z := Sub now t.

End Time.

(** ** Data model *)

Record storedValue : Type := mkStoredValue {
  value : string;
  timestamp : Z
}.

Record ValueStore : Type := mkValueStore {
  values : gmap string storedValue;
  ttl : Z
}.

(** [NewValueStore]: an empty map and the configured ttl.  The goroutine it
    starts is the source of the [OpSweep] steps below. *)
Definition NewValueStore (ttl0 : Z) : ValueStore :=
  {| values := ∅; ttl := ttl0 |}.

(** ** Operations *)

(** [Set] ([Set_] here, the name being reserved):
    [vs.values[id] = storedValue{value, time.Now()}]. *)
Definition Set_ (now : Z) (id val : string) (vs : ValueStore) : ValueStore :=
  {| values := <[id := {| value := val; timestamp := now |}]> (values vs);
     ttl := ttl vs |}.

(** First critical section of [Get]: [val, exists := vs.values[id]] under the
    read lock.  [None] is [exists = false]. *)
Definition Get_read (id : string) (vs : ValueStore) : option storedValue :=
  values vs !! id.

(** The test [time.Since(val.timestamp) > vs.ttl]. *)
Definition expired (now ttl0 : Z) (val : storedValue) : bool :=
  Time.Since now (timestamp val) >? ttl0.

(** Rest of [Get], run on the snapshot taken by [Get_read] against the store
    as it is when the write lock is obtained: on [!exists || expired] an
    unconditional [delete(vs.values, id)] and the empty string, otherwise the
    snapshot's value and no write. *)
Definition Get_finish (now : Z) (id : string) (snap : option storedValue)
    (vs : ValueStore) : string * ValueStore :=
  match snap with
  | Some val =>
      if expired now (ttl vs) val
      then (EmptyString, {| values := delete id (values vs); ttl := ttl vs |})
      else (value val, vs)
  | None =>
      (EmptyString, {| values := delete id (values vs); ttl := ttl vs |})
  end.

(** [Get] with nothing running between its two critical sections. *)
Definition Get (now : Z) (id : string) (vs : ValueStore) : string * ValueStore :=
  Get_finish now id (Get_read id vs) vs.

(** Body of the sweep's [for id, val := range vs.values]: delete [id] from
    the map when [now.Sub(val.timestamp) > vs.ttl]. *)
Definition sweep_step (now ttl0 : Z) (id : string) (val : storedValue)
    (acc : gmap string storedValue) : gmap string storedValue :=
  if expired now ttl0 val then delete id acc else acc.

(** One iteration of the [for range ticker.C] loop of [startCleanupRoutine]:
    the clock is read once, then the loop ranges over the map, deleting from
    that same map. *)
Definition cleanupTick (now : Z) (vs : ValueStore) : ValueStore :=
  {| values := map_fold (sweep_step now (ttl vs)) (values vs) (values vs);
     ttl := ttl vs |}.

(** The handler's presence test on the string [Get] returned
    ([if val == "" { ... 404 ... }]). *)
Definition found (val : string) : bool := negb (String.eqb val EmptyString).

(** ** Executions: the operations that can reach the store *)

Inductive op : Type :=
| OpSet (now : Z) (id val : string)
| OpGet (now : Z) (id : string)
| OpSweep (now : Z).

Definition step (vs : ValueStore) (o : op) : ValueStore :=
  match o with
  | OpSet now id val => Set_ now id val vs
  | OpGet now id => snd (Get now id vs)
  | OpSweep now => cleanupTick now vs
  end.

Definition run (ops : list op) (vs : ValueStore) : ValueStore :=
  foldl step vs ops.

(** [id] is written by no [Set] of the execution. *)
Definition never_Set (id : string) (ops : list op) : Prop :=
  Forall (fun o => match o with OpSet _ id' _ => id' ≠ id | _ => True end) ops.

(** The sweep loop [for range ticker.C] over the ticks delivered so far, each
    with the clock reading its iteration took. *)
Definition cleanupRoutine (ticks : list Z) (vs : ValueStore) : ValueStore :=
  foldl (fun acc now => cleanupTick now acc) vs ticks.

(** ** The HTTP handler registered by [main] *)

Module Http.

Definition MethodGet : string := "GET".
Definition MethodPost : string := "POST".

Definition StatusOK : Z := 200.
Definition StatusBadRequest : Z := 400.
Definition StatusNotFound : Z := 404.
Definition StatusMethodNotAllowed : Z := 405.
Definition StatusInternalServerError : Z := 500.

(** [url.Values.Get]: the first value recorded for the key, the empty string
    when there is none. *)
Definition Values_Get (q : gmap string (list string)) (key : string) : string :=
  match q !! key with
  | Some (v :: _) => v
  | _ => EmptyString
  end.

(** What the handler reads of a request: [r.Method] and [r.URL.Query()]. *)
Record Request : Type := mkRequest {
  Method : string;
  Query : gmap string (list string)
}.

(** The calls the handler makes on its [http.ResponseWriter], in order:
    [w.Header().Set(k, v)], [http.Error(w, msg, code)] and
    [json.NewEncoder(w).Encode(m)] for a [map[string]string] [m]. *)
Inductive wcall : Type :=
| HeaderSet (k v : string)
| Error (msg : string) (code : Z)
| Encode (m : gmap string string).

(** The status line of the response: fixed by the first call that writes,
    [http.Error] with its code, a body write with 200. *)
Fixpoint status (calls : list wcall) : Z :=
  match calls with
  | [] => StatusOK
  | HeaderSet _ _ :: rest => status rest
  | Error _ code :: _ => code
  | Encode _ :: _ => StatusOK
  end.

End Http.

Import Http.

(** The function passed to [http.HandleFunc("/", ...)].  [now] is the clock
    reading of the one store call the request makes; [enc_err] says whether
    the [Encode] of the found value reported an error. *)
Definition handler (now : Z) (enc_err : bool) (r : Request)
    (vs : ValueStore) : list wcall * ValueStore :=
  if String.eqb (Method r) MethodGet then
    let id := Values_Get (Query r) "id" in
    if String.eqb id "" then
      ([Error "missing ?id parameter" StatusBadRequest], vs)
    else
      let res := Get now id vs in
      if String.eqb (fst res) "" then
        ([Error "not found or expired" StatusNotFound;
          Encode {[ "message"%string := "Clipboard not found"%string ]}],
         snd res)
      else
        ([HeaderSet "Content-Type" "application/json";
          Encode {[ "id"%string := id; "value"%string := fst res ]}]
         ++ (if enc_err
             then [Error "internal server error" StatusInternalServerError]
             else []),
         snd res)
  else if String.eqb (Method r) MethodPost then
    let id := Values_Get (Query r) "id" in
    let val := Values_Get (Query r) "value" in
    if String.eqb id "" || String.eqb val "" then
      ([Error "`id` and `value` required" StatusBadRequest;
        Encode {[ "message"%string := "Sorry something went wrong"%string ]}],
       vs)
    else
      ([HeaderSet "Content-Type" "application/json";
        Encode {[ "message"%string := "Clip board recorded successfully"%string;
                  "id"%string := id; "value"%string := val ]}],
       Set_ now id val vs)
  else
    ([HeaderSet "Allow" "GET, POST";
      Error "method not allowed" StatusMethodNotAllowed],
     vs).

(** The requests [GET /?id=<id>] and [POST /?id=<id>&value=<val>]. *)
Definition GET_id (id : string) : Request :=
  {| Method := MethodGet; Query := {[ "id"%string := [id] ]} |}.

Definition POST_id_value (id val : string) : Request :=
  {| Method := MethodPost;
     Query := {[ "id"%string := [id]; "value"%string := [val] ]} |}.

(** What reaches the store of the running server: requests and sweep ticks. *)
Inductive event : Type :=
| Req (now : Z) (enc_err : bool) (r : Request)
| Tick (now : Z).

Definition serve_step (vs : ValueStore) (e : event) : ValueStore :=
  match e with
  | Req now enc_err r => snd (handler now enc_err r vs)
  | Tick now => cleanupTick now vs
  end.

Definition serve (evs : list event) (vs : ValueStore) : ValueStore :=
  foldl serve_step vs evs.

(** No entry of the map has an empty identifier or an empty value. *)
Definition no_empty (vs : ValueStore) : Prop :=
  map_Forall (fun id val => id <> EmptyString /\ value val <> EmptyString)
    (values vs).

(** ** Clock arithmetic *)

Section Clock.

Lemma Sub_self t : Time.Sub t t = 0.
Proof. unfold Time.Sub, Time.minDuration, Time.maxDuration. lia. Qed.

Lemma Sub_exact t u :
  Time.is_int64 (t - u) -> Time.Sub t u = t - u.
Proof.
  unfold Time.is_int64, Time.Sub, Time.minDuration, Time.maxDuration. lia.
Qed.

Lemma Sub_mono t t' u : t <= t' -> Time.Sub t u <= Time.Sub t' u.
Proof. unfold Time.Sub, Time.minDuration, Time.maxDuration. lia. Qed.

Lemma Sub_is_int64 t u : Time.is_int64 (Time.Sub t u).
Proof.
  unfold Time.is_int64, Time.Sub, Time.minDuration, Time.maxDuration. lia.
Qed.

Lemma expired_true now ttl0 val :
  expired now ttl0 val = true <-> Time.Since now (timestamp val) > ttl0.
Proof. unfold expired. rewrite Z.gtb_ltb, Z.ltb_lt. lia. Qed.

Lemma expired_false now ttl0 val :
  expired now ttl0 val = false <-> Time.Since now (timestamp val) <= ttl0.
Proof. unfold expired. rewrite Z.gtb_ltb, Z.ltb_ge. lia. Qed.

Lemma expired_later now now' ttl0 val :
  now <= now' -> expired now ttl0 val = true -> expired now' ttl0 val = true.
Proof.
  rewrite !expired_true. unfold Time.Since. intros Hle Hexp.
  pose proof (Sub_mono now now' (timestamp val) Hle). lia.
Qed.

End Clock.

(** ** What one sequential [Get] does, by the three cases of the lookup *)

Section GetCases.

Variables (now : Z) (id : string) (vs : ValueStore).

Lemma store_eta (m : gmap string storedValue) :
  m = values vs -> {| values := m; ttl := ttl vs |} = vs.
Proof. intros ->. by destruct vs. Qed.

Lemma Get_absent :
  values vs !! id = None -> Get now id vs = (EmptyString, vs).
Proof.
  intros Hnone. unfold Get, Get_read. rewrite Hnone. simpl.
  f_equal. apply store_eta. by apply delete_id.
Qed.

Lemma Get_stale val :
  values vs !! id = Some val -> expired now (ttl vs) val = true ->
  Get now id vs =
    (EmptyString, {| values := delete id (values vs); ttl := ttl vs |}).
Proof.
  intros Hsome Hexp. unfold Get, Get_read. rewrite Hsome. simpl.
  by rewrite Hexp.
Qed.

Lemma Get_live val :
  values vs !! id = Some val -> expired now (ttl vs) val = false ->
  Get now id vs = (value val, vs).
Proof.
  intros Hsome Hexp. unfold Get, Get_read. rewrite Hsome. simpl.
  by rewrite Hexp.
Qed.

Lemma Get_ttl : ttl (snd (Get now id vs)) = ttl vs.
Proof.
  unfold Get, Get_finish. destruct (Get_read id vs) as [val|]; [|done].
  by destruct (expired now (ttl vs) val).
Qed.

End GetCases.

(** ** The sweep, entry by entry *)

Section Sweep.

Variables (now ttl0 : Z).

(** Folding the deletions of the entries of [m] over any map [acc]: an
    identifier is taken out of [acc] exactly when [m] holds an expired entry
    for it. *)
Lemma sweep_fold_lookup (m acc : gmap string storedValue) (id : string) :
  map_fold (sweep_step now ttl0) acc m !! id =
    match m !! id with
    | Some val => if expired now ttl0 val then None else acc !! id
    | None => acc !! id
    end.
Proof.
  induction m as [|k x m Hk Hfst IH] using map_first_key_ind.
  - by rewrite map_fold_empty, lookup_empty.
  - rewrite map_fold_insert_first_key by done.
    unfold sweep_step at 1.
    destruct (decide (k = id)) as [->|Hne].
    + rewrite lookup_insert_eq.
      destruct (expired now ttl0 x).
      * apply lookup_delete_eq.
      * by rewrite IH, Hk.
    + rewrite lookup_insert_ne by done.
      destruct (expired now ttl0 x).
      * by rewrite lookup_delete_ne.
      * done.
Qed.

End Sweep.

Lemma cleanupTick_lookup now vs id :
  values (cleanupTick now vs) !! id =
    match values vs !! id with
    | Some val => if expired now (ttl vs) val then None else Some val
    | None => None
    end.
Proof.
  unfold cleanupTick. simpl. rewrite sweep_fold_lookup.
  destruct (values vs !! id) as [val|] eqn:Hid; by rewrite ?Hid.
Qed.

Lemma cleanupTick_ttl now vs : ttl (cleanupTick now vs) = ttl vs.
Proof. done. Qed.

(** ** Executions keep the configured ttl *)

Lemma step_ttl vs o : ttl (step vs o) = ttl vs.
Proof. destruct o; simpl; [done | apply Get_ttl | done]. Qed.

Lemma run_ttl ops vs : ttl (run ops vs) = ttl vs.
Proof.
  unfold run. revert vs.
  induction ops as [|o ops IH]; intros vs; simpl; [done|].
  by rewrite IH, step_ttl.
Qed.

Lemma run_snoc ops o vs : run (ops ++ [o]) vs = step (run ops vs) o.
Proof. unfold run. by rewrite foldl_app. Qed.

(** An identifier no [Set] ever wrote is not in the map. *)
Lemma never_Set_absent ttl0 ops id :
  never_Set id ops -> values (run ops (NewValueStore ttl0)) !! id = None.
Proof.
  unfold never_Set.
  induction ops as [|o ops IH] using rev_ind; intros Hall.
  - apply lookup_empty.
  - apply Forall_app in Hall as [Hops Ho]. rewrite Forall_singleton in Ho.
    specialize (IH Hops). rewrite run_snoc.
    set (vs := run ops (NewValueStore ttl0)) in *.
    destruct o as [t k v|t k|t].
    + simpl in *. by rewrite lookup_insert_ne.
    + simpl. unfold Get, Get_finish. destruct (Get_read k vs) as [val|]; simpl.
      * destruct (expired t (ttl vs) val); simpl; [|done].
        rewrite lookup_delete. by case_decide.
      * rewrite lookup_delete. by case_decide.
    + unfold step. rewrite cleanupTick_lookup. by rewrite IH.
Qed.

(** * The claims *)

Local Open Scope string_scope.

(** ** C1: a [Set] read back at once *)

(** C1, as the claim words it, fails for the empty value: [Set(id, "")]
    followed at once by [Get(id)] yields the empty string, which the caller's
    presence test reads as absent. *)
Lemma Set_Get_empty_value_reads_absent :
  let vs := Set_ 0 "note1" "" (NewValueStore 10) in
  ~ (fst (Get 0 "note1" vs) = "" /\ found (fst (Get 0 "note1" vs)) = true).
Proof. vm_compute. intros [_ Hfound]. discriminate Hfound. Qed.

(** C1 (amended): when the clock has not moved past the ttl since the [Set],
    [Get(id)] returns the string [v] that [Set(id, v)] stored and leaves the
    store as the [Set] left it; [Get] has no separate presence flag, and the
    caller's test on the returned string reports it present exactly when [v]
    is not the empty string. *)
Theorem Set_then_Get (vs : ValueStore) (t0 t1 : Z) (id v : string) :
  Time.Since t1 t0 <= ttl vs ->
  Get t1 id (Set_ t0 id v vs) = (v, Set_ t0 id v vs) /\
  (found (fst (Get t1 id (Set_ t0 id v vs))) = true <-> v <> "").
Proof.
  intros Hage.
  assert (Hget : Get t1 id (Set_ t0 id v vs) = (v, Set_ t0 id v vs)).
  { apply (Get_live t1 id (Set_ t0 id v vs) {| value := v; timestamp := t0 |}).
    - apply lookup_insert_eq.
    - by apply expired_false. }
  split; [done|]. rewrite Hget. simpl. unfold found.
  rewrite negb_true_iff. apply String.eqb_neq.
Qed.

Lemma Set_then_Get_witness :
  Get 5 "note1" (Set_ 0 "note1" "hello" (NewValueStore 10)) =
    ("hello", Set_ 0 "note1" "hello" (NewValueStore 10)) /\
  (found (fst (Get 5 "note1" (Set_ 0 "note1" "hello" (NewValueStore 10))))
     = true <-> "hello" <> "").
Proof.
  apply (Set_then_Get (NewValueStore 10) 0 5 "note1" "hello").
  vm_compute. discriminate.
Defined.

(** ** C2: the ttl boundary *)



(** ** C3: no expired value is ever read *)

(** What a [Get] shows of any store: the empty string, or the value of an
    entry that is live at the time of the read. *)
Lemma Get_observes (vs : ValueStore) (now : Z) (id : string) :
  fst (Get now id vs) = "" \/
  exists val, values vs !! id = Some val /\
              Time.Since now (timestamp val) <= ttl vs /\
              fst (Get now id vs) = value val.
Proof.
  destruct (values vs !! id) as [val|] eqn:Hid.
  - destruct (expired now (ttl vs) val) eqn:Hexp.
    + left. by rewrite (Get_stale now id vs val Hid Hexp).
    + right. exists val. rewrite (Get_live now id vs val Hid Hexp).
      by apply expired_false in Hexp.
  - left. by rewrite Get_absent.
Qed.

(** After a [Get] of [id], the map holds for [id] a live entry or nothing. *)
Lemma Get_leaves_live (vs : ValueStore) (now : Z) (id : string) :
  match values (snd (Get now id vs)) !! id with
  | Some val => Time.Since now (timestamp val) <= ttl vs
  | None => True
  end.
Proof.
  destruct (values vs !! id) as [val|] eqn:Hid.
  - destruct (expired now (ttl vs) val) eqn:Hexp.
    + rewrite (Get_stale now id vs val Hid Hexp). simpl.
      by rewrite lookup_delete_eq.
    + rewrite (Get_live now id vs val Hid Hexp). simpl. rewrite Hid.
      by apply expired_false.
  - rewrite Get_absent by done. simpl. by rewrite Hid.
Qed.

(** C3: in every store reached from [NewValueStore T] by any sequence of
    [Set], [Get] and sweep steps, a [Get] of an entry older than the ttl
    returns the absent result and removes the entry, whether or not a sweep
    has run; what a [Get] returns is the empty string or the value of an entry
    live at that moment; and after it the map holds for that identifier a live
    entry or none. *)
Theorem no_expired_value_is_read (T : Z) (ops : list op) (now : Z)
    (id : string) :
  let vs := run ops (NewValueStore T) in
  (forall val, values vs !! id = Some val ->
               Time.Since now (timestamp val) > T ->
               fst (Get now id vs) = "" /\
               values (snd (Get now id vs)) !! id = None) /\
  (fst (Get now id vs) = "" \/
   exists val, values vs !! id = Some val /\
               Time.Since now (timestamp val) <= T /\
               fst (Get now id vs) = value val) /\
  match values (snd (Get now id vs)) !! id with
  | Some val => Time.Since now (timestamp val) <= T
  | None => True
  end.
Proof.
  intros vs.
  assert (HT : ttl vs = T) by (unfold vs; by rewrite run_ttl).
  rewrite <- HT. split; [|split].
  - intros val Hid Hage. apply expired_true in Hage.
    rewrite (Get_stale now id vs val Hid Hage). simpl.
    split; [done | apply lookup_delete_eq].
  - apply Get_observes.
  - apply Get_leaves_live.
Qed.

Lemma no_expired_value_is_read_witness :
  let vs := run [OpSet 0 "note1" "hello"; OpSweep 5] (NewValueStore 10) in
  fst (Get 11 "note1" vs) = "" /\
  values (snd (Get 11 "note1" vs)) !! "note1" = None.
Proof.
  apply (proj1 (no_expired_value_is_read 10
                  [OpSet 0 "note1" "hello"; OpSweep 5] 11 "note1")
           {| value := "hello"; timestamp := 0 |});
    vm_compute; reflexivity.
Defined.

(** ** C4: lazy deletion *)

(** C4: a [Get] of an identifier whose entry is older than the ttl returns the
    absent result and, in the same call, deletes that entry: the map it leaves
    is the old one without [id]. *)
Theorem Get_expired_deletes (vs : ValueStore) (now : Z) (id : string)
    (val : storedValue) :
  values vs !! id = Some val ->
  Time.Since now (timestamp val) > ttl vs ->
  fst (Get now id vs) = "" /\
  found (fst (Get now id vs)) = false /\
  values (snd (Get now id vs)) !! id = None /\
  snd (Get now id vs) = {| values := delete id (values vs); ttl := ttl vs |}.
Proof.
  intros Hid Hage. apply expired_true in Hage.
  rewrite (Get_stale now id vs val Hid Hage). simpl.
  repeat split. apply lookup_delete_eq.
Qed.

Lemma Get_expired_deletes_witness :
  let vs := Set_ 0 "note1" "hello" (NewValueStore 10) in
  fst (Get 11 "note1" vs) = "" /\
  found (fst (Get 11 "note1" vs)) = false /\
  values (snd (Get 11 "note1" vs)) !! "note1" = None /\
  snd (Get 11 "note1" vs)
    = {| values := delete "note1" (values vs); ttl := ttl vs |}.
Proof.
  apply (Get_expired_deletes (Set_ 0 "note1" "hello" (NewValueStore 10)) 11
           "note1" {| value := "hello"; timestamp := 0 |});
    vm_compute; reflexivity.
Defined.

(** ** C5: the window between the two critical sections of [Get] *)

(** Whatever a writer stored between the snapshot and the delete is removed,
    on both branches that delete: the snapshot was stale, or it found
    nothing. *)
Lemma Get_finish_deletes_newer (vs : ValueStore) (now t : Z) (id v : string)
    (snap : option storedValue) :
  match snap with
  | Some val => expired now (ttl vs) val = true
  | None => True
  end ->
  values (snd (Get_finish now id snap (Set_ t id v vs))) !! id = None.
Proof.
  destruct snap as [val|]; simpl.
  - intros ->. simpl. apply lookup_delete_eq.
  - intros _. apply lookup_delete_eq.
Qed.

(** C5 fails on the code.  A reader takes its snapshot of a stale entry; a
    writer then stores a new value under the same identifier; the reader's
    second critical section deletes whatever the map holds for the identifier,
    so the value just written is gone although it is live. *)
Theorem lazy_delete_erases_concurrent_Set :
  let vs0 := Set_ 0 "note1" "old" (NewValueStore 10) in
  let snap := Get_read "note1" vs0 in
  let vs1 := Set_ 20 "note1" "new" vs0 in
  let res := Get_finish 20 "note1" snap vs1 in
  values vs1 !! "note1" = Some {| value := "new"; timestamp := 20 |} /\
  fst (Get 20 "note1" vs1) = "new" /\
  fst res = "" /\
  values (snd res) !! "note1" = None /\
  fst (Get 20 "note1" (snd res)) = "".
Proof. vm_compute. repeat split. Qed.

(** ** C6: one tick of the sweep *)

(** C6: one sweep tick at [now] keeps the ttl, removes every entry older than
    the ttl at [now], keeps every other entry with its value and timestamp,
    and adds none; a [Get] at [now] or later returns the same result on the
    swept store as on the unswept one. *)
Theorem cleanupTick_removes_exactly_expired (vs : ValueStore) (now : Z) :
  ttl (cleanupTick now vs) = ttl vs /\
  (forall id val, values vs !! id = Some val ->
                  Time.Since now (timestamp val) > ttl vs ->
                  values (cleanupTick now vs) !! id = None) /\
  (forall id val, values vs !! id = Some val ->
                  Time.Since now (timestamp val) <= ttl vs ->
                  values (cleanupTick now vs) !! id = Some val) /\
  (forall id, values vs !! id = None ->
              values (cleanupTick now vs) !! id = None) /\
  (forall now' id, now <= now' ->
                   fst (Get now' id (cleanupTick now vs))
                   = fst (Get now' id vs)).
Proof.
  split; [done|]. split; [|split; [|split]].
  - intros id val Hid Hage. apply expired_true in Hage.
    by rewrite cleanupTick_lookup, Hid, Hage.
  - intros id val Hid Hage. apply expired_false in Hage.
    by rewrite cleanupTick_lookup, Hid, Hage.
  - intros id Hid. by rewrite cleanupTick_lookup, Hid.
  - intros now' id Hle.
    pose proof (cleanupTick_lookup now vs id) as Hswept.
    destruct (values vs !! id) as [val|] eqn:Hid.
    + destruct (expired now (ttl vs) val) eqn:Hexp.
      * rewrite (Get_absent now' id _ Hswept).
        by rewrite (Get_stale now' id vs val Hid
                      (expired_later now now' _ val Hle Hexp)).
      * unfold Get, Get_read. rewrite Hswept, Hid. simpl.
        by destruct (expired now' (ttl vs) val).
    + by rewrite (Get_absent now' id _ Hswept), (Get_absent now' id vs Hid).
Qed.

Lemma cleanupTick_removes_exactly_expired_witness :
  let vs := Set_ 15 "note2" "world" (Set_ 0 "note1" "hello"
                                       (NewValueStore 10)) in
  values (cleanupTick 20 vs) !! "note1" = None /\
  values (cleanupTick 20 vs) !! "note2"
    = Some {| value := "world"; timestamp := 15 |} /\
  values (cleanupTick 20 vs) !! "note3" = None /\
  fst (Get 21 "note2" (cleanupTick 20 vs)) = fst (Get 21 "note2" vs).
Proof.
  intros vs.
  destruct (cleanupTick_removes_exactly_expired vs 20)
    as (_ & Hgone & Hkept & Hnone & Hget).
  split; [|split; [|split]].
  - apply (Hgone "note1" {| value := "hello"; timestamp := 0 |});
      vm_compute; reflexivity.
  - apply (Hkept "note2" {| value := "world"; timestamp := 15 |});
      vm_compute; [reflexivity | discriminate].
  - apply Hnone. vm_compute. reflexivity.
  - apply Hget. lia.
Defined.

(** ** C7: overwrite *)

(** C7: a second [Set] on the same identifier replaces the entry whole: the
    store is the one the second [Set] alone would give, the entry holds [v2]
    with the time of the second [Set] (age zero at that moment), and a [Get]
    within the ttl of the second [Set] returns [v2], however long ago the
    first [Set] was. *)
Theorem Set_overwrites (vs : ValueStore) (id v1 v2 : string) (t1 t2 t3 : Z) :
  Time.Since t3 t2 <= ttl vs ->
  Set_ t2 id v2 (Set_ t1 id v1 vs) = Set_ t2 id v2 vs /\
  values (Set_ t2 id v2 (Set_ t1 id v1 vs)) !! id
    = Some {| value := v2; timestamp := t2 |} /\
  Time.Since t2 t2 = 0 /\
  Get t3 id (Set_ t2 id v2 (Set_ t1 id v1 vs))
    = (v2, Set_ t2 id v2 (Set_ t1 id v1 vs)).
Proof.
  intros Hage. split; [|split; [|split]].
  - unfold Set_. simpl. by rewrite insert_insert_eq.
  - apply lookup_insert_eq.
  - apply Sub_self.
  - apply (Get_live t3 id _ {| value := v2; timestamp := t2 |}).
    + apply lookup_insert_eq.
    + by apply expired_false.
Qed.

Lemma Set_overwrites_witness :
  let vs2 := Set_ 1000 "note1" "second" (Set_ 0 "note1" "first"
                                             (NewValueStore 10)) in
  vs2 = Set_ 1000 "note1" "second" (NewValueStore 10) /\
  values vs2 !! "note1" = Some {| value := "second"; timestamp := 1000 |} /\
  Time.Since 1000 1000 = 0 /\
  Get 1009 "note1" vs2 = ("second", vs2).
Proof.
  apply (Set_overwrites (NewValueStore 10) "note1" "first" "second" 0 1000
           1009).
  vm_compute. discriminate.
Defined.

(** ** C8: an identifier never written *)

(** C8: in a store reached by an execution in which no [Set] wrote [id], the
    map has no entry for [id] and [Get(id)] returns the absent result (the
    empty string, not found), leaving the store as it was. *)
Theorem Get_never_written (T : Z) (ops : list op) (now : Z) (id : string) :
  never_Set id ops ->
  values (run ops (NewValueStore T)) !! id = None /\
  Get now id (run ops (NewValueStore T)) = ("", run ops (NewValueStore T)) /\
  found (fst (Get now id (run ops (NewValueStore T)))) = false.
Proof.
  intros Hnever.
  pose proof (never_Set_absent T ops id Hnever) as Hid.
  split; [done|]. by rewrite (Get_absent now id _ Hid).
Qed.

Lemma Get_never_written_witness :
  let ops := [OpSet 0 "note1" "hello"; OpGet 5 "note2"; OpSweep 20] in
  values (run ops (NewValueStore 10)) !! "note2" = None /\
  Get 30 "note2" (run ops (NewValueStore 10))
    = ("", run ops (NewValueStore 10)) /\
  found (fst (Get 30 "note2" (run ops (NewValueStore 10)))) = false.
Proof.
  apply (Get_never_written 10
           [OpSet 0 "note1" "hello"; OpGet 5 "note2"; OpSweep 20] 30 "note2").
  repeat constructor. discriminate.
Defined.

(** ** C9: a read of a live entry writes nothing *)

(** C9: a [Get] of an identifier whose entry is live (age at most the ttl)
    returns the entry's value and leaves the whole store as it was: the same
    value and timestamp for [id], and every other entry untouched. *)
Theorem Get_live_unchanged (vs : ValueStore) (now : Z) (id : string)
    (val : storedValue) :
  values vs !! id = Some val ->
  Time.Since now (timestamp val) <= ttl vs ->
  Get now id vs = (value val, vs) /\
  values (snd (Get now id vs)) !! id = Some val /\
  (forall id', values (snd (Get now id vs)) !! id' = values vs !! id').
Proof.
  intros Hid Hage. apply expired_false in Hage.
  by rewrite (Get_live now id vs val Hid Hage).
Qed.

Lemma Get_live_unchanged_witness :
  let vs := Set_ 3 "note2" "world" (Set_ 0 "note1" "hello"
                                      (NewValueStore 10)) in
  Get 10 "note1" vs = ("hello", vs) /\
  values (snd (Get 10 "note1" vs)) !! "note1"
    = Some {| value := "hello"; timestamp := 0 |} /\
  (forall id', values (snd (Get 10 "note1" vs)) !! id' = values vs !! id').
Proof.
  apply (Get_live_unchanged
           (Set_ 3 "note2" "world" (Set_ 0 "note1" "hello" (NewValueStore 10)))
           10 "note1" {| value := "hello"; timestamp := 0 |}).
  - vm_compute. reflexivity.
  - vm_compute. discriminate.
Defined.

(** ** C10: [Get] twice at one instant *)

(** C10: at a fixed clock reading, a second [Get(id)] straight after the first
    returns the same string and leaves the store exactly as the first left
    it. *)
Theorem Get_idempotent (vs : ValueStore) (now : Z) (id : string) :
  fst (Get now id (snd (Get now id vs))) = fst (Get now id vs) /\
  snd (Get now id (snd (Get now id vs))) = snd (Get now id vs).
Proof.
  destruct (values vs !! id) as [val|] eqn:Hid.
  - destruct (expired now (ttl vs) val) eqn:Hexp.
    + rewrite (Get_stale now id vs val Hid Hexp). simpl.
      rewrite Get_absent by (simpl; apply lookup_delete_eq). done.
    + rewrite (Get_live now id vs val Hid Hexp). simpl.
      by rewrite (Get_live now id vs val Hid Hexp).
  - rewrite (Get_absent now id vs Hid). simpl.
    by rewrite (Get_absent now id vs Hid).
Qed.

(** * Further properties of the store *)

(** Two stores with the same map and the same ttl are the same store. *)
Lemma store_ext (a b : ValueStore) :
  values a = values b -> ttl a = ttl b -> a = b.
Proof. destruct a, b. simpl. by intros -> ->. Qed.

(** What [Get] leaves for the identifier it read: nothing, or the entry that
    was there. *)
Lemma Get_lookup_same (vs : ValueStore) (now : Z) (id : string) :
  values (snd (Get now id vs)) !! id = None \/
  values (snd (Get now id vs)) !! id = values vs !! id.
Proof.
  unfold Get, Get_finish, Get_read.
  destruct (values vs !! id) as [val|] eqn:Hid; simpl.
  - destruct (expired now (ttl vs) val); simpl.
    + left. apply lookup_delete_eq.
    + right. done.
  - left. apply lookup_delete_eq.
Qed.

Lemma Get_lookup_other (vs : ValueStore) (now : Z) (id id' : string) :
  id <> id' -> values (snd (Get now id vs)) !! id' = values vs !! id'.
Proof.
  intros Hne. unfold Get, Get_finish.
  destruct (Get_read id vs) as [val|]; simpl.
  - destruct (expired now (ttl vs) val); simpl; [|done].
    by apply lookup_delete_ne.
  - by apply lookup_delete_ne.
Qed.

(** The string [Get] returns depends on the entry of its identifier and on
    the ttl only. *)
Lemma Get_fst_ext (vs1 vs2 : ValueStore) (now : Z) (id : string) :
  values vs1 !! id = values vs2 !! id -> ttl vs1 = ttl vs2 ->
  fst (Get now id vs1) = fst (Get now id vs2).
Proof.
  intros Hid Httl. unfold Get, Get_finish, Get_read. rewrite Hid, Httl.
  destruct (values vs2 !! id) as [val|]; [|done].
  by destruct (expired now (ttl vs2) val).
Qed.

(** One step that is not a [Set] of [id] leaves for [id] nothing or the entry
    it found. *)
Lemma step_no_Set_lookup (vs : ValueStore) (o : op) (id : string) :
  match o with OpSet _ id' _ => id' <> id | _ => True end ->
  values (step vs o) !! id = None \/
  values (step vs o) !! id = values vs !! id.
Proof.
  destruct o as [t k v|t k|t]; intros Ho.
  - right. simpl. by apply lookup_insert_ne.
  - destruct (decide (k = id)) as [->|Hne].
    + apply Get_lookup_same.
    + right. simpl. by apply Get_lookup_other.
  - unfold step. rewrite cleanupTick_lookup.
    destruct (values vs !! id) as [val|]; [|by left].
    destruct (expired t (ttl vs) val); [by left | by right].
Qed.

Lemma run_no_Set_lookup (vs : ValueStore) (ops : list op) (id : string) :
  never_Set id ops ->
  values (run ops vs) !! id = None \/
  values (run ops vs) !! id = values vs !! id.
Proof.
  unfold never_Set.
  induction ops as [|o ops IH] using rev_ind; intros Hall.
  - by right.
  - apply Forall_app in Hall as [Hops Ho]. rewrite Forall_singleton in Ho.
    rewrite run_snoc.
    destruct (step_no_Set_lookup (run ops vs) o id Ho) as [Hnone|Hsame].
    + by left.
    + rewrite Hsame. by apply IH.
Qed.

(** Every entry of a store reached from [NewValueStore] was written, value
    and timestamp, by one [Set] of the execution. *)
Lemma entry_from_Set (T : Z) (ops : list op) (id : string)
    (val : storedValue) :
  values (run ops (NewValueStore T)) !! id = Some val ->
  In (OpSet (timestamp val) id (value val)) ops.
Proof.
  revert val.
  induction ops as [|o ops IH] using rev_ind; intros val Hid.
  - unfold run in Hid. simpl in Hid. by rewrite lookup_empty in Hid.
  - rewrite run_snoc in Hid. apply in_or_app.
    set (vs := run ops (NewValueStore T)) in *.
    destruct o as [t k v|t k|t].
    + simpl in Hid. destruct (decide (k = id)) as [->|Hne].
      * rewrite lookup_insert_eq in Hid. injection Hid as <-.
        right. simpl. by left.
      * rewrite lookup_insert_ne in Hid by done. left. by apply IH.
    + left. apply IH.
      destruct (decide (k = id)) as [->|Hne].
      * destruct (Get_lookup_same vs t id) as [Hnone|Hsame];
          simpl in Hid; congruence.
      * simpl in Hid. by rewrite Get_lookup_other in Hid.
    + left. apply IH. unfold step in Hid. rewrite cleanupTick_lookup in Hid.
      destruct (values vs !! id) as [val'|]; [|done].
      by destruct (expired t (ttl vs) val').
Qed.

(** A later sweep makes an earlier one redundant. *)
Lemma cleanupTick_absorb (vs : ValueStore) (now now' : Z) :
  now <= now' -> cleanupTick now' (cleanupTick now vs) = cleanupTick now' vs.
Proof.
  intros Hle. apply store_ext; [|done]. apply map_eq. intros id.
  rewrite !cleanupTick_lookup. rewrite cleanupTick_ttl.
  destruct (values vs !! id) as [val|]; [|done].
  destruct (expired now (ttl vs) val) eqn:Hexp; [|done].
  by rewrite (expired_later now now' _ val Hle Hexp).
Qed.

(** ** Operations on different identifiers do not interfere *)



(** X2: a [Get], whether it deletes or not, leaves the entry of every other
    identifier as it was, so a later [Get] of another identifier returns what
    it would have returned without the first one. *)
Theorem Get_touches_only_its_id (vs : ValueStore) (now now' : Z)
    (id id' : string) :
  id <> id' ->
  values (snd (Get now id vs)) !! id' = values vs !! id' /\
  fst (Get now' id' (snd (Get now id vs))) = fst (Get now' id' vs).
Proof.
  intros Hne.
  pose proof (Get_lookup_other vs now id id' Hne) as Hother.
  split; [done|]. apply Get_fst_ext; [done | apply Get_ttl].
Qed.

Lemma Get_touches_only_its_id_witness :
  let vs := Set_ 15 "note2" "world" (Set_ 0 "note1" "hello"
                                       (NewValueStore 10)) in
  values (snd (Get 20 "note1" vs)) !! "note2" = values vs !! "note2" /\
  fst (Get 21 "note2" (snd (Get 20 "note1" vs))) = fst (Get 21 "note2" vs).
Proof.
  apply (Get_touches_only_its_id
           (Set_ 15 "note2" "world" (Set_ 0 "note1" "hello"
                                       (NewValueStore 10)))
           20 21 "note1" "note2").
  discriminate.
Defined.



(** ** Entries change by [Set] only *)

(** X4: over any execution in which no [Set] writes [id], an entry found for
    [id] at the end is the entry that was there at the start, value and
    timestamp: reads and sweeps only ever remove. *)
Theorem entry_untouched_without_Set (vs : ValueStore) (ops : list op)
    (id : string) (val : storedValue) :
  never_Set id ops ->
  values (run ops vs) !! id = Some val ->
  values vs !! id = Some val.
Proof.
  intros Hnever Hid.
  destruct (run_no_Set_lookup vs ops id Hnever) as [Hnone|Hsame]; congruence.
Qed.

Lemma entry_untouched_without_Set_witness :
  values (Set_ 0 "note1" "hello" (NewValueStore 10)) !! "note1"
  = Some {| value := "hello"; timestamp := 0 |}.
Proof.
  apply (entry_untouched_without_Set
           (Set_ 0 "note1" "hello" (NewValueStore 10))
           [OpGet 5 "note1"; OpSweep 7; OpSet 8 "note2" "world";
            OpGet 9 "note2"]
           "note1" {| value := "hello"; timestamp := 0 |}).
  - repeat constructor. discriminate.
  - vm_compute. reflexivity.
Defined.

(** X5: once [Get(id)] has returned the empty string, every later [Get(id)]
    returns the empty string too, at whatever time and after whatever reads,
    sweeps and writes to other identifiers, until a [Set] writes [id]. *)
Theorem absent_stays_absent (vs : ValueStore) (ops : list op) (now now' : Z)
    (id : string) :
  never_Set id ops ->
  fst (Get now id vs) = "" ->
  fst (Get now' id (run ops (snd (Get now id vs)))) = "".
Proof.
  intros Hnever Hfirst.
  set (vs1 := snd (Get now id vs)).
  assert (Hvs1 : values vs1 !! id = None \/
                 exists val, values vs1 !! id = Some val /\ value val = "").
  { unfold vs1. revert Hfirst. unfold Get, Get_finish, Get_read.
    destruct (values vs !! id) as [val|] eqn:Hid; simpl.
    - destruct (expired now (ttl vs) val); simpl.
      + intros _. left. apply lookup_delete_eq.
      + intros Hval. right. by exists val.
    - intros _. left. apply lookup_delete_eq. }
  destruct (run_no_Set_lookup vs1 ops id Hnever) as [Hnone|Hsame].
  - by rewrite Get_absent.
  - destruct Hvs1 as [Hnone|(val & Hval & Hempty)].
    + rewrite Get_absent; [done | congruence].
    + rewrite Hval in Hsame.
      destruct (expired now' (ttl (run ops vs1)) val) eqn:Hexp.
      * by rewrite (Get_stale now' id _ val Hsame Hexp).
      * by rewrite (Get_live now' id _ val Hsame Hexp).
Qed.

Lemma absent_stays_absent_witness :
  let vs := Set_ 0 "note1" "hello" (NewValueStore 10) in
  fst (Get 20 "note1"
         (run [OpSet 12 "note2" "world"; OpSweep 13] (snd (Get 11 "note1" vs))))
  = "".
Proof.
  apply (absent_stays_absent (Set_ 0 "note1" "hello" (NewValueStore 10))
           [OpSet 12 "note2" "world"; OpSweep 13] 11 20 "note1").
  - repeat constructor. discriminate.
  - vm_compute. reflexivity.
Defined.

(** X6: a non-empty string returned by [Get(id)] on a store reached from
    [NewValueStore] is the whole value of one [Set(id, ...)] of the execution,
    and that [Set] is no older than the ttl at the time of the read. *)
Theorem Get_returns_a_Set_value (T : Z) (ops : list op) (now : Z)
    (id : string) :
  fst (Get now id (run ops (NewValueStore T))) <> "" ->
  exists t, In (OpSet t id (fst (Get now id (run ops (NewValueStore T))))) ops
            /\ Time.Since now t <= T.
Proof.
  intros Hret.
  destruct (Get_observes (run ops (NewValueStore T)) now id)
    as [Hempty|(val & Hid & Hage & Hval)]; [done|].
  exists (timestamp val). rewrite Hval. rewrite run_ttl in Hage.
  split; [by apply (entry_from_Set T) | done].
Qed.

Lemma Get_returns_a_Set_value_witness :
  exists t,
    In (OpSet t "note1"
          (fst (Get 9 "note1"
                  (run [OpSet 0 "note1" "first"; OpSet 3 "note1" "second"]
                     (NewValueStore 10)))))
       [OpSet 0 "note1" "first"; OpSet 3 "note1" "second"]
    /\ Time.Since 9 t <= 10.
Proof.
  apply (Get_returns_a_Set_value 10
           [OpSet 0 "note1" "first"; OpSet 3 "note1" "second"] 9 "note1").
  vm_compute. discriminate.
Defined.

(** ** The sweep loop *)

(** X7: however many ticks the sweep loop has run, if none read the clock
    later than the last one, the store is the one a single sweep at the last
    tick would have left. *)
Theorem cleanupRoutine_is_last_tick (vs : ValueStore) (ticks : list Z)
    (last : Z) :
  Forall (fun t => t <= last) ticks ->
  cleanupRoutine (ticks ++ [last]) vs = cleanupTick last vs.
Proof.
  intros Hle. unfold cleanupRoutine. rewrite foldl_app. simpl.
  revert vs. induction Hle as [|t ticks Ht _ IH]; intros vs; simpl; [done|].
  rewrite IH. by apply cleanupTick_absorb.
Qed.

Lemma cleanupRoutine_is_last_tick_witness :
  let vs := Set_ 15 "note2" "world" (Set_ 0 "note1" "hello"
                                       (NewValueStore 10)) in
  cleanupRoutine ([5; 12; 20] ++ [30]) vs = cleanupTick 30 vs.
Proof.
  apply (cleanupRoutine_is_last_tick
           (Set_ 15 "note2" "world" (Set_ 0 "note1" "hello"
                                       (NewValueStore 10)))
           [5; 12; 20] 30).
  repeat constructor; lia.
Defined.

(** X8: at one clock reading a sweep and a [Get] commute: the [Get] returns
    the same string before and after the sweep, and sweeping after the [Get]
    gives the store that the [Get] after the sweep gives. *)
Theorem Get_cleanupTick_commute (vs : ValueStore) (now : Z) (id : string) :
  Get now id (cleanupTick now vs)
  = (fst (Get now id vs), cleanupTick now (snd (Get now id vs))).
Proof.
  pose proof (cleanupTick_lookup now vs id) as Hswept.
  destruct (values vs !! id) as [val|] eqn:Hid.
  - destruct (expired now (ttl vs) val) eqn:Hexp.
    + rewrite (Get_absent now id _ Hswept).
      rewrite (Get_stale now id vs val Hid Hexp). simpl. f_equal.
      apply store_ext; [|done]. apply map_eq. intros k.
      rewrite !cleanupTick_lookup. simpl.
      destruct (decide (id = k)) as [<-|Hne].
      * by rewrite lookup_delete_eq, Hid, Hexp.
      * by rewrite lookup_delete_ne.
    + rewrite (Get_live now id vs val Hid Hexp). simpl.
      apply (Get_live now id (cleanupTick now vs) val Hswept Hexp).
  - rewrite (Get_absent now id _ Hswept), (Get_absent now id vs Hid). done.
Qed.

(** ** The ttl at its two ends *)

(** X9: a store whose ttl is the largest duration never expires anything: a
    sweep at any time leaves it as it is and a [Get] returns whatever entry
    the map holds, without writing. *)
Theorem max_ttl_never_expires (vs : ValueStore) (now : Z) :
  ttl vs = Time.maxDuration ->
  cleanupTick now vs = vs /\
  (forall id val, values vs !! id = Some val ->
                  Get now id vs = (value val, vs)).
Proof.
  intros Hmax.
  assert (Hlive : forall t val, expired t (ttl vs) val = false).
  { intros t val. apply expired_false. rewrite Hmax.
    apply (Sub_is_int64 t (timestamp val)). }
  split.
  - apply store_ext; [|done]. apply map_eq. intros id.
    rewrite cleanupTick_lookup.
    destruct (values vs !! id) as [val|]; [|done]. by rewrite Hlive.
  - intros id val Hid. by apply Get_live.
Qed.

Lemma max_ttl_never_expires_witness :
  let vs := Set_ 0 "note1" "hello" (NewValueStore Time.maxDuration) in
  cleanupTick (2 ^ 62) vs = vs /\
  (forall id val, values vs !! id = Some val ->
                  Get (2 ^ 62) id vs = (value val, vs)).
Proof.
  apply (max_ttl_never_expires
           (Set_ 0 "note1" "hello" (NewValueStore Time.maxDuration)) (2 ^ 62)).
  reflexivity.
Defined.

(** X10: [NewValueStore] takes any duration; under a negative ttl a value can
    never be read back: a [Get] at the time of the [Set] or later returns
    the empty string and deletes the entry. *)
Theorem negative_ttl_reads_nothing (vs : ValueStore) (t0 now : Z)
    (id v : string) :
  ttl vs < 0 -> t0 <= now ->
  fst (Get now id (Set_ t0 id v vs)) = "" /\
  values (snd (Get now id (Set_ t0 id v vs))) !! id = None.
Proof.
  intros Hneg Hclock.
  rewrite (Get_stale now id (Set_ t0 id v vs)
             {| value := v; timestamp := t0 |}).
  - simpl. split; [done | apply lookup_delete_eq].
  - apply lookup_insert_eq.
  - apply expired_true. simpl.
    unfold Time.Since, Time.Sub, Time.minDuration, Time.maxDuration. lia.
Qed.

Lemma negative_ttl_reads_nothing_witness :
  fst (Get 0 "note1" (Set_ 0 "note1" "hello" (NewValueStore (-1)))) = "" /\
  values (snd (Get 0 "note1" (Set_ 0 "note1" "hello" (NewValueStore (-1)))))
    !! "note1" = None.
Proof.
  apply (negative_ttl_reads_nothing (NewValueStore (-1)) 0 0 "note1" "hello").
  - vm_compute. reflexivity.
  - lia.
Defined.

(** * The HTTP handler *)

Lemma Values_Get_GET_id (id : string) :
  Values_Get (Query (GET_id id)) "id" = id.
Proof. unfold Values_Get, GET_id. simpl. by rewrite lookup_singleton_eq. Qed.

Lemma Values_Get_POST_id (id v : string) :
  Values_Get (Query (POST_id_value id v)) "id" = id.
Proof. unfold Values_Get, POST_id_value. simpl. by rewrite lookup_insert_eq. Qed.

Lemma Values_Get_POST_value (id v : string) :
  Values_Get (Query (POST_id_value id v)) "value" = v.
Proof.
  unfold Values_Get, POST_id_value. simpl.
  rewrite lookup_insert_ne by discriminate. by rewrite lookup_singleton_eq.
Qed.

Lemma eqb_empty_false (s : string) : s <> "" -> String.eqb s "" = false.
Proof. intros Hne. by apply String.eqb_neq. Qed.

(** The [GET] branch, on a request that names an identifier. *)
Lemma handler_GET (now : Z) (enc_err : bool) (r : Request) (vs : ValueStore) :
  Method r = MethodGet -> Values_Get (Query r) "id" <> "" ->
  handler now enc_err r vs =
    let id := Values_Get (Query r) "id" in
    let res := Get now id vs in
    if String.eqb (fst res) "" then
      ([Error "not found or expired" StatusNotFound;
        Encode {[ "message" := "Clipboard not found" ]}],
       snd res)
    else
      (([HeaderSet "Content-Type" "application/json";
         Encode {[ "id" := id; "value" := fst res ]}]
        ++ (if enc_err
            then [Error "internal server error" StatusInternalServerError]
            else []))%list,
       snd res).
Proof.
  intros Hm Hid. unfold handler. rewrite Hm. simpl.
  by rewrite (eqb_empty_false _ Hid).
Qed.

(** The [POST] branch, on a request that carries both parameters. *)
Lemma handler_POST (now : Z) (enc_err : bool) (r : Request) (vs : ValueStore) :
  Method r = MethodPost ->
  Values_Get (Query r) "id" <> "" -> Values_Get (Query r) "value" <> "" ->
  handler now enc_err r vs =
    ([HeaderSet "Content-Type" "application/json";
      Encode {[ "message" := "Clip board recorded successfully";
                "id" := Values_Get (Query r) "id";
                "value" := Values_Get (Query r) "value" ]}],
     Set_ now (Values_Get (Query r) "id") (Values_Get (Query r) "value") vs).
Proof.
  intros Hm Hid Hval. unfold handler. rewrite Hm. simpl.
  by rewrite (eqb_empty_false _ Hid), (eqb_empty_false _ Hval).
Qed.

(** What the handler does to the store: nothing, the write of one [Set] with
    a non-empty identifier and value, or what one [Get] does. *)
Lemma handler_store (now : Z) (enc_err : bool) (r : Request)
    (vs : ValueStore) :
  snd (handler now enc_err r vs) = vs \/
  (exists id v, id <> "" /\ v <> "" /\
                snd (handler now enc_err r vs) = Set_ now id v vs) \/
  (exists id, snd (handler now enc_err r vs) = snd (Get now id vs)).
Proof.
  unfold handler.
  destruct (String.eqb (Method r) MethodGet).
  - destruct (String.eqb (Values_Get (Query r) "id") ""); [by left|].
    right. right. exists (Values_Get (Query r) "id").
    by destruct (String.eqb (fst (Get now _ vs)) "").
  - destruct (String.eqb (Method r) MethodPost); [|by left].
    destruct (String.eqb (Values_Get (Query r) "id") "") eqn:Hid;
      [by left|].
    destruct (String.eqb (Values_Get (Query r) "value") "") eqn:Hval;
      [by left|].
    right. left. simpl.
    exists (Values_Get (Query r) "id"), (Values_Get (Query r) "value").
    by rewrite <- !String.eqb_neq.
Qed.

Lemma Get_no_empty (vs : ValueStore) (now : Z) (id : string) :
  no_empty vs -> no_empty (snd (Get now id vs)).
Proof.
  unfold no_empty, Get, Get_finish. intros Hvs.
  destruct (Get_read id vs) as [val|]; simpl.
  - destruct (expired now (ttl vs) val); simpl; [|done].
    by apply map_Forall_delete.
  - by apply map_Forall_delete.
Qed.

Lemma cleanupTick_no_empty (vs : ValueStore) (now : Z) :
  no_empty vs -> no_empty (cleanupTick now vs).
Proof.
  unfold no_empty. intros Hvs id val Hid.
  rewrite cleanupTick_lookup in Hid.
  destruct (values vs !! id) as [val'|] eqn:Hvs'; [|done].
  destruct (expired now (ttl vs) val'); [done|].
  injection Hid as <-. by apply (Hvs id val').
Qed.

Lemma serve_step_no_empty (vs : ValueStore) (e : event) :
  no_empty vs -> no_empty (serve_step vs e).
Proof.
  intros Hvs. destruct e as [now enc_err r|now]; simpl.
  - destruct (handler_store now enc_err r vs)
      as [->|[(id & v & Hid & Hv & ->)|(id & ->)]].
    + done.
    + unfold no_empty, Set_. simpl. by apply map_Forall_insert_2.
    + by apply Get_no_empty.
  - by apply cleanupTick_no_empty.
Qed.

(** A [Set] read back within the ttl. *)
Lemma Set_then_Get_live (vs : ValueStore) (t0 t1 : Z) (id v : string) :
  Time.Since t1 t0 <= ttl vs ->
  Get t1 id (Set_ t0 id v vs) = (v, Set_ t0 id v vs).
Proof.
  intros Hage.
  apply (Get_live t1 id (Set_ t0 id v vs) {| value := v; timestamp := t0 |}).
  - apply lookup_insert_eq.
  - by apply expired_false.
Qed.

(** X11: a [POST] with a non-empty identifier and value answers 200 and does
    exactly one [Set]; a [GET] of that identifier within the ttl then answers
    200, encodes the identifier with the posted value, and leaves the store
    as the [POST] left it. *)
Theorem POST_then_GET (vs : ValueStore) (t0 t1 : Z) (e0 e1 : bool)
    (id v : string) :
  id <> "" -> v <> "" -> Time.Since t1 t0 <= ttl vs ->
  status (fst (handler t0 e0 (POST_id_value id v) vs)) = StatusOK /\
  snd (handler t0 e0 (POST_id_value id v) vs) = Set_ t0 id v vs /\
  status (fst (handler t1 e1 (GET_id id) (Set_ t0 id v vs))) = StatusOK /\
  In (Encode {[ "id" := id; "value" := v ]})
     (fst (handler t1 e1 (GET_id id) (Set_ t0 id v vs))) /\
  snd (handler t1 e1 (GET_id id) (Set_ t0 id v vs)) = Set_ t0 id v vs.
Proof.
  intros Hid Hv Hage.
  rewrite handler_POST;
    rewrite ?Values_Get_POST_id, ?Values_Get_POST_value; try done.
  rewrite handler_GET; rewrite ?Values_Get_GET_id; try done.
  cbv zeta.
  rewrite (Set_then_Get_live vs t0 t1 id v Hage). simpl.
  rewrite (eqb_empty_false _ Hv). simpl. repeat split. right. by left.
Qed.

Lemma POST_then_GET_witness :
  let vs1 := Set_ 0 "note1" "hello" (NewValueStore 10) in
  status (fst (handler 0 false (POST_id_value "note1" "hello")
                 (NewValueStore 10))) = StatusOK /\
  snd (handler 0 false (POST_id_value "note1" "hello") (NewValueStore 10))
    = vs1 /\
  status (fst (handler 5 false (GET_id "note1") vs1)) = StatusOK /\
  In (Encode {[ "id" := "note1"; "value" := "hello" ]})
     (fst (handler 5 false (GET_id "note1") vs1)) /\
  snd (handler 5 false (GET_id "note1") vs1) = vs1.
Proof.
  apply (POST_then_GET (NewValueStore 10) 0 5 false false "note1" "hello").
  - discriminate.
  - discriminate.
  - vm_compute. discriminate.
Defined.

(** X12: a [GET] without a non-empty [id] parameter, and a [POST] lacking a
    non-empty [id] or a non-empty [value], answer 400 and never reach the
    store: it is left as it was, with no read, no delete and no write. *)
Theorem bad_request_leaves_store (now : Z) (enc_err : bool) (r : Request)
    (vs : ValueStore) :
  (Method r = MethodGet /\ Values_Get (Query r) "id" = "") \/
  (Method r = MethodPost /\
   (Values_Get (Query r) "id" = "" \/ Values_Get (Query r) "value" = "")) ->
  status (fst (handler now enc_err r vs)) = StatusBadRequest /\
  snd (handler now enc_err r vs) = vs.
Proof.
  intros [[Hm Hid]|[Hm Hmissing]]; unfold handler; rewrite Hm; simpl.
  - by rewrite Hid.
  - destruct Hmissing as [-> | ->]; simpl; [done|].
    by rewrite orb_true_r.
Qed.

Lemma bad_request_leaves_store_witness :
  let vs := Set_ 0 "note1" "hello" (NewValueStore 10) in
  status (fst (handler 20 false
                 {| Method := "POST"; Query := {[ "id" := ["note1"] ]} |} vs))
    = StatusBadRequest /\
  snd (handler 20 false
         {| Method := "POST"; Query := {[ "id" := ["note1"] ]} |} vs) = vs.
Proof.
  apply (bad_request_leaves_store 20 false
           {| Method := "POST"; Query := {[ "id" := ["note1"] ]} |}
           (Set_ 0 "note1" "hello" (NewValueStore 10))).
  right. split; [reflexivity|]. right. vm_compute. reflexivity.
Defined.

(** X13: a request whose method is neither [GET] nor [POST] (the comparison
    is exact, so [get] is one) answers 405 after setting the [Allow] header,
    and leaves the store as it was. *)
Theorem other_method_not_allowed (now : Z) (enc_err : bool) (r : Request)
    (vs : ValueStore) :
  Method r <> MethodGet -> Method r <> MethodPost ->
  handler now enc_err r vs
  = ([HeaderSet "Allow" "GET, POST";
      Error "method not allowed" StatusMethodNotAllowed], vs) /\
  status (fst (handler now enc_err r vs)) = StatusMethodNotAllowed.
Proof.
  intros Hget Hpost. unfold handler.
  apply String.eqb_neq in Hget. apply String.eqb_neq in Hpost.
  by rewrite Hget, Hpost.
Qed.

Lemma other_method_not_allowed_witness :
  let r := {| Method := "get"; Query := {[ "id" := ["note1"] ]} |} in
  let vs := Set_ 0 "note1" "hello" (NewValueStore 10) in
  handler 5 false r vs
  = ([HeaderSet "Allow" "GET, POST";
      Error "method not allowed" StatusMethodNotAllowed], vs) /\
  status (fst (handler 5 false r vs)) = StatusMethodNotAllowed.
Proof.
  apply (other_method_not_allowed 5 false
           {| Method := "get"; Query := {[ "id" := ["note1"] ]} |}
           (Set_ 0 "note1" "hello" (NewValueStore 10)));
    discriminate.
Defined.

(** X14: whatever requests and sweep ticks the server has processed since
    [NewValueStore], its map holds no entry with an empty identifier and no
    entry with an empty value. *)
Theorem served_store_has_no_empty (T : Z) (evs : list event) :
  no_empty (serve evs (NewValueStore T)).
Proof.
  unfold serve.
  induction evs as [|e evs IH] using rev_ind.
  - unfold no_empty. simpl. apply map_Forall_empty.
  - rewrite foldl_app. simpl. by apply serve_step_no_empty.
Qed.

(** X15: on a store with no empty value, a [GET] that names an identifier
    answers 200 exactly when the map holds a live entry for it, and then
    encodes that entry's value and writes nothing; otherwise (no entry, or an
    entry older than the ttl) it answers 404 and the map holds no entry for
    the identifier afterwards. *)
Theorem GET_status (now : Z) (enc_err : bool) (r : Request)
    (vs : ValueStore) :
  Method r = MethodGet -> Values_Get (Query r) "id" <> "" -> no_empty vs ->
  (status (fst (handler now enc_err r vs)) = StatusOK /\
   snd (handler now enc_err r vs) = vs /\
   exists val, values vs !! Values_Get (Query r) "id" = Some val /\
               Time.Since now (timestamp val) <= ttl vs /\
               In (Encode {[ "id" := Values_Get (Query r) "id";
                             "value" := value val ]})
                  (fst (handler now enc_err r vs))) \/
  (status (fst (handler now enc_err r vs)) = StatusNotFound /\
   values (snd (handler now enc_err r vs)) !! Values_Get (Query r) "id" = None /\
   (values vs !! Values_Get (Query r) "id" = None \/
    exists val, values vs !! Values_Get (Query r) "id" = Some val /\
                Time.Since now (timestamp val) > ttl vs)).
Proof.
  intros Hm Hidne Hvs. rewrite (handler_GET now enc_err r vs Hm Hidne).
  cbv zeta. set (id := Values_Get (Query r) "id") in *.
  destruct (values vs !! id) as [val|] eqn:Hid.
  - destruct (expired now (ttl vs) val) eqn:Hexp.
    + right. rewrite (Get_stale now id vs val Hid Hexp). simpl.
      split; [done|]. split; [apply lookup_delete_eq|].
      right. exists val. by apply expired_true in Hexp.
    + left. rewrite (Get_live now id vs val Hid Hexp). simpl.
      destruct (Hvs id val Hid) as [_ Hval].
      rewrite (eqb_empty_false _ Hval). simpl.
      split; [done|]. split; [done|].
      exists val. apply expired_false in Hexp.
      split; [done|]. split; [done|]. right. by left.
  - right. rewrite (Get_absent now id vs Hid). simpl.
    split; [done|]. split; [done|]. by left.
Qed.

Lemma GET_status_witness :
  let vs := Set_ 0 "note1" "hello" (NewValueStore 10) in
  status (fst (handler 11 false (GET_id "note1") vs)) = StatusNotFound /\
  values (snd (handler 11 false (GET_id "note1") vs)) !! "note1" = None.
Proof.
  intros vs.
  destruct (GET_status 11 false (GET_id "note1") vs) as [Hok|Hmiss].
  - reflexivity.
  - vm_compute. discriminate.
  - unfold no_empty, vs. simpl. apply map_Forall_insert_2.
    + split; discriminate.
    + apply map_Forall_empty.
  - destruct Hok as [Hok _]. vm_compute in Hok. discriminate Hok.
  - destruct Hmiss as (Hst & Hnone & _). split; [exact Hst | exact Hnone].
Defined.

(** * The window inside [Get], for everything but a [Set] of the same key *)

(** What a step leaves for an identifier depends on the entry of that
    identifier and on the ttl only. *)
Lemma step_lookup_local (vs1 vs2 : ValueStore) (o : op) (k : string) :
  values vs1 !! k = values vs2 !! k -> ttl vs1 = ttl vs2 ->
  values (step vs1 o) !! k = values (step vs2 o) !! k.
Proof.
  intros Hk Httl. destruct o as [t id v|t id|t].
  - simpl. rewrite !lookup_insert. by case_decide.
  - destruct (decide (id = k)) as [->|Hne].
    + simpl. unfold Get, Get_finish, Get_read. rewrite Hk, Httl.
      destruct (values vs2 !! k) as [val|] eqn:Hk2; simpl.
      * destruct (expired t (ttl vs2) val); simpl; [|congruence].
        by rewrite !lookup_delete_eq.
      * by rewrite !lookup_delete_eq.
    + simpl. by rewrite !Get_lookup_other.
  - unfold step. by rewrite !cleanupTick_lookup, Hk, Httl.
Qed.

(** X16: one operation of another goroutine that runs between the two
    critical sections of a [Get(id)] (a sweep, a [Get] of any identifier, a
    [Set] of another identifier) is harmless: the [Get] returns the string
    and the store ends as if the whole [Get] had run first and the other
    operation after it. *)
Theorem Get_window_is_safe (vs : ValueStore) (now : Z) (id : string)
    (o : op) :
  match o with OpSet _ id' _ => id' <> id | _ => True end ->
  Get_finish now id (Get_read id vs) (step vs o)
  = (fst (Get now id vs), step (snd (Get now id vs)) o).
Proof.
  intros Ho. unfold Get_read.
  destruct (values vs !! id) as [val|] eqn:Hid.
  - simpl. rewrite step_ttl.
    destruct (expired now (ttl vs) val) eqn:Hexp.
    + rewrite (Get_stale now id vs val Hid Hexp). simpl. f_equal.
      set (D := {| values := delete id (values vs); ttl := ttl vs |}).
      apply store_ext; [|by rewrite !step_ttl]. simpl.
      apply map_eq. intros k.
      destruct (decide (id = k)) as [<-|Hne].
      * rewrite lookup_delete_eq.
        destruct (step_no_Set_lookup D o id Ho) as [-> | ->]; [done|].
        simpl. by rewrite lookup_delete_eq.
      * rewrite lookup_delete_ne by done.
        apply step_lookup_local; [|done]. simpl.
        by rewrite lookup_delete_ne.
    + by rewrite (Get_live now id vs val Hid Hexp).
  - rewrite (Get_absent now id vs Hid). simpl. f_equal.
    apply store_eta. apply delete_id.
    destruct (step_no_Set_lookup vs o id Ho) as [-> | ->]; done.
Qed.

Lemma Get_window_is_safe_witness :
  let vs := Set_ 0 "note1" "hello" (NewValueStore 10) in
  Get_finish 20 "note1" (Get_read "note1" vs)
    (step vs (OpSet 15 "note2" "world"))
  = (fst (Get 20 "note1" vs),
     step (snd (Get 20 "note1" vs)) (OpSet 15 "note2" "world")).
Proof.
  apply (Get_window_is_safe (Set_ 0 "note1" "hello" (NewValueStore 10)) 20
           "note1" (OpSet 15 "note2" "world")).
  discriminate.
Defined.
